(** * VIBALERT: the speech-recognition hook of [src/App.js]

    A shallow embedding of [useWebSpeechRecognition] (the React hook that
    drives the browser's [SpeechRecognition] object) and of the part of
    [App] that reads it ([copyToInput]).

    React state is one record, [World]; every [setX] call is a state
    update, and a handler is a computation in a small state-and-exception
    monad, [Js], so that [try { ... } catch { ... }] keeps the updates
    made before the throw, as the setters of the source do.

    Of the JSX tree only what decides which handler a press runs is
    embedded ([onPress], [disabled], and the conditions under which a
    button is rendered). Not embedded: layout and styles, haptics, and
    the [console.log] and [console.error] lines, which touch no state. *)

From Stdlib Require Import String List Bool Arith Lia.
Import ListNotations.
Local Open Scope list_scope.
Local Open Scope string_scope.

(** ** The browser side: the Web Speech API objects the hook consumes *)

Module WebSpeech.

(** [event.results[i][0]]: an alternative carries its [transcript]. *)
Record SpeechRecognitionAlternative : Type := mkAlternative {
  transcript : string
}.

(** [event.results[i]]: a list of alternatives, never empty in the API
    (item 0 is the best guess), and the [isFinal] tag. *)
Record SpeechRecognitionResult : Type := mkResult {
  item0 : SpeechRecognitionAlternative;
  items : list SpeechRecognitionAlternative;
  isFinal : bool
}.

(** The argument of [onresult]. *)
Record SpeechRecognitionEvent : Type := mkEvent {
  resultIndex : nat;
  results : list SpeechRecognitionResult
}.

(** The recognition object: the three settings the hook writes, and
    whether a session has been started and has not ended yet. *)
Record SpeechRecognition : Type := mkRecognition {
  continuous : bool;
  interimResults : bool;
  lang : string;
  started : bool
}.

Inductive DOMException : Type :=
| InvalidStateError.

(** [new SpeechRecognition()]. *)
Definition new : SpeechRecognition :=
  {| continuous := false; interimResults := false; lang := ""; started := false |}.

(** [recognition.start()]: the Web Speech API has it throw an
    [InvalidStateError] on an object that is already started. *)
Definition start (r : SpeechRecognition) : DOMException + SpeechRecognition :=
  if started r then inl InvalidStateError
  else inr {| continuous := continuous r; interimResults := interimResults r;
              lang := lang r; started := true |}.

(** [recognition.stop()] only asks the session to finish; the session
    is over when the provider fires [end]. *)
Definition stop (r : SpeechRecognition) : DOMException + SpeechRecognition :=
  inr r.

(** The provider's own bookkeeping when it fires [end]. *)
Definition ended (r : SpeechRecognition) : SpeechRecognition :=
  {| continuous := continuous r; interimResults := interimResults r;
     lang := lang r; started := false |}.

End WebSpeech.

(** ** State *)

(** What the code does to the outside, in order. *)
Inductive Effect : Type :=
| RecognitionStart                       (* recognitionRef.current.start() *)
| RecognitionStop                        (* recognitionRef.current.stop()  *)
| AlertShown (title message : string).   (* Alert.alert(title, message)    *)

(** The [useState] cells and the ref of the hook, [textToSpeak] of [App],
    and the log of effects. *)
Record World : Type := mkWorld {
  isListening : bool;
  transcript : string;
  interimTranscript : string;
  error : string;
  isSupported : bool;
  recognitionRef : option WebSpeech.SpeechRecognition;
  textToSpeak : string;
  effects : list Effect
}.

(** The [useState] initial values, [useRef(null)]. *)
Definition initialWorld : World :=
  {| isListening := false; transcript := ""; interimTranscript := "";
     error := ""; isSupported := false; recognitionRef := None;
     textToSpeak := ""; effects := [] |}.

(** ** Computations: state passing with exceptions *)

Inductive Completion (A : Type) : Type :=
| Normal (a : A)
| Throw (e : WebSpeech.DOMException).
Arguments Normal {A} a.
Arguments Throw {A} e.

Definition Js (A : Type) : Type := World -> Completion A * World.

Definition ret {A} (a : A) : Js A := fun w => (Normal a, w).

Definition bind {A B} (m : Js A) (k : A -> Js B) : Js B :=
  fun w => match m w with
           | (Normal a, w') => k a w'
           | (Throw e, w') => (Throw e, w')
           end.

(** [try { body } catch (e) { handler }]: the state reached at the throw
    is the state the handler starts from. *)
Definition try_catch {A} (body : Js A) (handler : WebSpeech.DOMException -> Js A) : Js A :=
  fun w => match body w with
           | (Normal a, w') => (Normal a, w')
           | (Throw e, w') => handler e w'
           end.

Declare Scope js_scope.
Delimit Scope js_scope with js.
Notation "x <- m ;; k" := (bind m (fun x => k))
  (at level 61, m at next level, right associativity) : js_scope.
Notation "m ;; k" := (bind m (fun _ => k))
  (at level 61, right associativity) : js_scope.
Notation "'try' b 'catch' h" := (try_catch b h)
  (at level 62, b at level 61, h at level 61) : js_scope.
Local Open Scope js_scope.

(** The state a computation leaves, and whether it returned. *)
Definition exec {A} (m : Js A) (w : World) : World := snd (m w).
Definition returns {A} (m : Js A) (w : World) : bool :=
  match fst (m w) with Normal _ => true | Throw _ => false end.

(** *** Reading and setting the cells *)

Definition read {A} (f : World -> A) : Js A := fun w => (Normal (f w), w).

Definition setIsListening (b : bool) : Js unit := fun w =>
  (Normal tt,
   {| isListening := b; transcript := transcript w;
      interimTranscript := interimTranscript w; error := error w;
      isSupported := isSupported w; recognitionRef := recognitionRef w;
      textToSpeak := textToSpeak w; effects := effects w |}).

(** [setTranscript(prev => f(prev))]; [setTranscript(s)] is the constant
    update. *)
Definition updTranscript (f : string -> string) : Js unit := fun w =>
  (Normal tt,
   {| isListening := isListening w; transcript := f (transcript w);
      interimTranscript := interimTranscript w; error := error w;
      isSupported := isSupported w; recognitionRef := recognitionRef w;
      textToSpeak := textToSpeak w; effects := effects w |}).

Definition setTranscript (s : string) : Js unit := updTranscript (fun _ => s).

Definition setInterimTranscript (s : string) : Js unit := fun w =>
  (Normal tt,
   {| isListening := isListening w; transcript := transcript w;
      interimTranscript := s; error := error w;
      isSupported := isSupported w; recognitionRef := recognitionRef w;
      textToSpeak := textToSpeak w; effects := effects w |}).

Definition setError (s : string) : Js unit := fun w =>
  (Normal tt,
   {| isListening := isListening w; transcript := transcript w;
      interimTranscript := interimTranscript w; error := s;
      isSupported := isSupported w; recognitionRef := recognitionRef w;
      textToSpeak := textToSpeak w; effects := effects w |}).

Definition setIsSupported (b : bool) : Js unit := fun w =>
  (Normal tt,
   {| isListening := isListening w; transcript := transcript w;
      interimTranscript := interimTranscript w; error := error w;
      isSupported := b; recognitionRef := recognitionRef w;
      textToSpeak := textToSpeak w; effects := effects w |}).

Definition setRecognitionRef (r : option WebSpeech.SpeechRecognition) : Js unit := fun w =>
  (Normal tt,
   {| isListening := isListening w; transcript := transcript w;
      interimTranscript := interimTranscript w; error := error w;
      isSupported := isSupported w; recognitionRef := r;
      textToSpeak := textToSpeak w; effects := effects w |}).

Definition setTextToSpeak (s : string) : Js unit := fun w =>
  (Normal tt,
   {| isListening := isListening w; transcript := transcript w;
      interimTranscript := interimTranscript w; error := error w;
      isSupported := isSupported w; recognitionRef := recognitionRef w;
      textToSpeak := s; effects := effects w |}).

Definition emit (e : Effect) : Js unit := fun w =>
  (Normal tt,
   {| isListening := isListening w; transcript := transcript w;
      interimTranscript := interimTranscript w; error := error w;
      isSupported := isSupported w; recognitionRef := recognitionRef w;
      textToSpeak := textToSpeak w; effects := (effects w ++ [e])%list |}).

Definition throw {A} (e : WebSpeech.DOMException) : Js A := fun w => (Throw e, w).

(** [Alert.alert(title, message)]. *)
Definition Alert_alert (title message : string) : Js unit :=
  emit (AlertShown title message).

(** [recognitionRef.current?.m()]: nothing happens on a null ref; else the
    call is made, and either the object moves on or the call throws. *)
Definition callRecognition (e : Effect)
    (m : WebSpeech.SpeechRecognition -> WebSpeech.DOMException + WebSpeech.SpeechRecognition)
    : Js unit :=
  ref <- read recognitionRef ;;
  match ref with
  | None => ret tt
  | Some r =>
      emit e ;;
      match m r with
      | inl exn => throw exn
      | inr r' => setRecognitionRef (Some r')
      end
  end.

(** A string in a condition: the empty string is the only falsy one. *)
Definition truthy (s : string) : bool := negb (s =? "").

(** ** The hook: [useWebSpeechRecognition] *)

(** The runtime the screen is mounted in: [typeof window !== 'undefined'],
    and whether [window.SpeechRecognition || window.webkitSpeechRecognition]
    is there. *)
Record Runtime : Type := mkRuntime {
  hasWindow : bool;
  hasSpeechRecognition : bool
}.

(** A field write on the object behind the ref ([recognition] and
    [recognitionRef.current] are one object). *)
Definition updRecognition
    (f : WebSpeech.SpeechRecognition -> WebSpeech.SpeechRecognition) : Js unit :=
  ref <- read recognitionRef ;;
  match ref with
  | None => ret tt
  | Some r => setRecognitionRef (Some (f r))
  end.

Definition set_continuous (b : bool) (r : WebSpeech.SpeechRecognition) :=
  {| WebSpeech.continuous := b; WebSpeech.interimResults := WebSpeech.interimResults r;
     WebSpeech.lang := WebSpeech.lang r; WebSpeech.started := WebSpeech.started r |}.
Definition set_interimResults (b : bool) (r : WebSpeech.SpeechRecognition) :=
  {| WebSpeech.continuous := WebSpeech.continuous r; WebSpeech.interimResults := b;
     WebSpeech.lang := WebSpeech.lang r; WebSpeech.started := WebSpeech.started r |}.
Definition set_lang (l : string) (r : WebSpeech.SpeechRecognition) :=
  {| WebSpeech.continuous := WebSpeech.continuous r;
     WebSpeech.interimResults := WebSpeech.interimResults r;
     WebSpeech.lang := l; WebSpeech.started := WebSpeech.started r |}.

(** The body of the mount effect (the handlers it installs are the
    definitions below). *)
Definition useEffect_mount (rt : Runtime) : Js unit :=
  if hasWindow rt then
    if hasSpeechRecognition rt then
      setIsSupported true ;;
      setRecognitionRef (Some WebSpeech.new) ;;
      updRecognition (set_continuous true) ;;
      updRecognition (set_interimResults true) ;;
      updRecognition (set_lang "en-US")
    else
      setIsSupported false ;;
      setError "Web Speech API not supported in this browser. Please use Chrome or Edge."
  else
    setIsSupported false ;;
    setError "Please open this app in a web browser for speech recognition.".

(** The cleanup the effect returns. *)
Definition useEffect_cleanup : Js unit :=
  callRecognition RecognitionStop WebSpeech.stop.

(** [recognition.onstart]. *)
Definition onstart : Js unit :=
  setIsListening true ;;
  setError "".

(** The [for] loop of [recognition.onresult]: [i] runs from
    [event.resultIndex] while [i < event.results.length]; [n] bounds the
    number of iterations left. The pair is ([finalTranscript],
    [interimTranscript]), the two locals of the handler. *)
Fixpoint onresult_loop (results : list WebSpeech.SpeechRecognitionResult)
    (n i : nat) (finalTranscript interimTranscript : string) : string * string :=
  match n with
  | O => (finalTranscript, interimTranscript)
  | S n' =>
      match nth_error results i with
      | None => (finalTranscript, interimTranscript)
      | Some result =>
          let transcript := WebSpeech.transcript (WebSpeech.item0 result) in
          if WebSpeech.isFinal result
          then onresult_loop results n' (S i) (finalTranscript ++ transcript) interimTranscript
          else onresult_loop results n' (S i) finalTranscript (interimTranscript ++ transcript)
      end
  end.

(** [recognition.onresult]. *)
Definition onresult (event : WebSpeech.SpeechRecognitionEvent) : Js unit :=
  let results := WebSpeech.results event in
  let '(finalTranscript, interimTranscript) :=
    onresult_loop results (length results - WebSpeech.resultIndex event)
                  (WebSpeech.resultIndex event) "" "" in
  (if truthy finalTranscript
   then updTranscript (fun prev => prev ++ finalTranscript)
   else ret tt) ;;
  setInterimTranscript interimTranscript.

(** The [switch] of [recognition.onerror]. *)
Definition errorMessage (code : string) : string :=
  if code =? "not-allowed" then
    "Microphone access denied. Please allow microphone permissions."
  else if code =? "no-speech" then
    "No speech detected. Please try again."
  else if code =? "audio-capture" then
    "No microphone found. Please check your microphone."
  else if code =? "network" then
    "Network error. Please check your connection."
  else
    "Speech recognition error: " ++ code.

(** [recognition.onerror], on [event.error]. *)
Definition onerror (code : string) : Js unit :=
  setError (errorMessage code) ;;
  setIsListening false.

(** [recognition.onend]. *)
Definition onend : Js unit :=
  setIsListening false ;;
  setInterimTranscript "".

Definition startListening : Js unit :=
  supported <- read isSupported ;;
  if negb supported then
    Alert_alert "Not Supported"
      "Please open this app in Chrome or Edge browser for speech recognition."
  else
    try (setError "" ;;
         setTranscript "" ;;
         setInterimTranscript "" ;;
         callRecognition RecognitionStart WebSpeech.start)
    catch (fun _ => setError "Failed to start speech recognition. Please try again.").

Definition stopListening : Js unit :=
  try (callRecognition RecognitionStop WebSpeech.stop)
  catch (fun _ => ret tt).

Definition clearTranscript : Js unit :=
  setTranscript "" ;;
  setInterimTranscript "" ;;
  setError "".

(** ** [App] *)

Definition copyToInput : Js unit :=
  t <- read transcript ;;
  if truthy t then
    setTextToSpeak t ;;
    clearTranscript ;;
    Alert_alert "Copied!" "Speech result copied to text input."
  else ret tt.

(** [fullTranscript], computed at each render. *)
Definition fullTranscript (w : World) : string :=
  transcript w ++ interimTranscript w.

(** ** Runs *)

(** The screen once mounted in runtime [rt]. *)
Definition mount (rt : Runtime) : World := exec (useEffect_mount rt) initialWorld.

(** What can happen to a mounted screen: the user's operations and the
    provider's events. *)
Inductive Action : Type :=
| Start
| Stop
| Clear
| OnStart
| OnResult (event : WebSpeech.SpeechRecognitionEvent)
| OnError (code : string)
| OnEnd.

(** The provider's session is over when it fires [end]. *)
Definition providerEnded : Js unit := updRecognition WebSpeech.ended.

Definition step (a : Action) (w : World) : World :=
  match a with
  | Start => exec startListening w
  | Stop => exec stopListening w
  | Clear => exec clearTranscript w
  | OnStart => exec onstart w
  | OnResult event => exec (onresult event) w
  | OnError code => exec (onerror code) w
  | OnEnd => exec (providerEnded ;; onend) w
  end.

Definition run (tr : list Action) (w : World) : World :=
  fold_left (fun w a => step a w) tr w.

(** Result events one after the other. *)
Definition processResults (es : list WebSpeech.SpeechRecognitionEvent) (w : World) : World :=
  run (map OnResult es) w.

(** The session state the claims speak of. *)
Definition Listening (w : World) : Prop := isListening w = true.
Definition Idle (w : World) : Prop := isListening w = false.

(** ** What the claims speak of, in the spec's words *)

(** The segments an event delivers: the results from [resultIndex] on. *)
Definition delivered (event : WebSpeech.SpeechRecognitionEvent)
    : list WebSpeech.SpeechRecognitionResult :=
  skipn (WebSpeech.resultIndex event) (WebSpeech.results event).

Definition segmentText (r : WebSpeech.SpeechRecognitionResult) : string :=
  WebSpeech.transcript (WebSpeech.item0 r).

(** The texts of a list of segments, put end to end in order. *)
Definition concatText (l : list WebSpeech.SpeechRecognitionResult) : string :=
  fold_right (fun r acc => segmentText r ++ acc) "" l.

Definition finalSegments (l : list WebSpeech.SpeechRecognitionResult) :=
  filter WebSpeech.isFinal l.
Definition interimSegments (l : list WebSpeech.SpeechRecognitionResult) :=
  filter (fun r => negb (WebSpeech.isFinal r)) l.

(** JS [s.includes(needle)]. *)
Fixpoint includes (s needle : string) : bool :=
  match s with
  | EmptyString => prefix needle ""
  | String _ s' => prefix needle s || includes s' needle
  end.

(** A run in which every result event is processed while listening and
    no error event occurs. *)
Definition allowed (a : Action) (w : World) : bool :=
  match a with
  | OnResult _ => isListening w
  | OnError _ => false
  | _ => true
  end.

Fixpoint guarded (tr : list Action) (w : World) : bool :=
  match tr with
  | [] => true
  | a :: tr' => allowed a w && guarded tr' (step a w)
  end.

(** The invariant of the transcript buffer: nothing is pending on an idle
    screen. *)
Definition idleMeansNoPending (w : World) : Prop :=
  isListening w = false -> interimTranscript w = "".

(** ** Sample runtimes, segments and events *)

Definition browserWithSpeech : Runtime := {| hasWindow := true; hasSpeechRecognition := true |}.
Definition browserWithoutSpeech : Runtime := {| hasWindow := true; hasSpeechRecognition := false |}.
Definition nativeRuntime : Runtime := {| hasWindow := false; hasSpeechRecognition := false |}.

Definition segment (text : string) (final : bool) : WebSpeech.SpeechRecognitionResult :=
  {| WebSpeech.item0 := {| WebSpeech.transcript := text |};
     WebSpeech.items := []; WebSpeech.isFinal := final |}.

(** [hello ] finalised; then [world] as a guess, delivered from index 1 on. *)
Definition helloEvent : WebSpeech.SpeechRecognitionEvent :=
  {| WebSpeech.resultIndex := 0; WebSpeech.results := [segment "hello " true] |}.
Definition worldEvent : WebSpeech.SpeechRecognitionEvent :=
  {| WebSpeech.resultIndex := 1;
     WebSpeech.results := [segment "hello " true; segment "world" false] |}.

(** ** Runs, sorted by what their actions are *)

(** The four events the provider fires. *)
Definition isProviderEvent (a : Action) : bool :=
  match a with
  | OnStart | OnResult _ | OnError _ | OnEnd => true
  | Start | Stop | Clear => false
  end.

(** [startListening] and [clearTranscript] are the two operations of the
    hook that call [setTranscript('')]. *)
Definition resetsTranscript (a : Action) : bool :=
  match a with
  | Start | Clear => true
  | _ => false
  end.

(** The result events of a run, in order. *)
Fixpoint resultsOf (tr : list Action) : list WebSpeech.SpeechRecognitionEvent :=
  match tr with
  | [] => []
  | OnResult event :: tr' => event :: resultsOf tr'
  | _ :: tr' => resultsOf tr'
  end.

(** Every final segment of the list comes before every interim one. *)
Fixpoint finalsFirst (l : list WebSpeech.SpeechRecognitionResult) : bool :=
  match l with
  | [] => true
  | r :: l' =>
      if WebSpeech.isFinal r then finalsFirst l'
      else forallb (fun r' => negb (WebSpeech.isFinal r')) l'
  end.

(** A run in which every result event is processed while listening and
    every error event is followed at once by the end event. *)
Fixpoint guardedWithErrors (tr : list Action) (w : World) : bool :=
  match tr with
  | [] => true
  | OnError code :: tr' =>
      match tr' with
      | OnEnd :: tr'' => guardedWithErrors tr'' (step OnEnd (step (OnError code) w))
      | _ => false
      end
  | a :: tr' => allowed a w && guardedWithErrors tr' (step a w)
  end.

(** The effects that are calls on the recognition object. *)
Definition isRecognitionCall (e : Effect) : bool :=
  match e with
  | RecognitionStart | RecognitionStop => true
  | AlertShown _ _ => false
  end.

(** The settings the mount effect writes on the recognition object. *)
Definition configured (w : World) : Prop :=
  forall r, recognitionRef w = Some r ->
    WebSpeech.continuous r = true /\
    WebSpeech.interimResults r = true /\
    WebSpeech.lang r = "en-US".

(** ** The buttons of [App] that drive the hook *)

(** The listen button, and the copy and clear buttons under the
    transcript. *)
Inductive Button : Type :=
| ListenButton
| CopyButton
| ClearButton.

(** What a press does. The listen button has [disabled={!isSupported}]
    and [onPress={isListening ? stopListening : startListening}]; the
    copy and clear buttons are rendered under [{transcript && ...}]
    only. A press on a disabled or absent button does nothing. *)
Definition onPress (b : Button) : Js unit :=
  match b with
  | ListenButton =>
      supported <- read isSupported ;;
      if negb supported then ret tt
      else
        listening <- read isListening ;;
        if listening then stopListening else startListening
  | CopyButton =>
      t <- read transcript ;;
      if truthy t then copyToInput else ret tt
  | ClearButton =>
      t <- read transcript ;;
      if truthy t then clearTranscript else ret tt
  end.

(** What reaches a mounted screen: a press, an edit of the text input
    ([onChangeText={setTextToSpeak}]), or a provider event. *)
Inductive Input : Type :=
| Press (b : Button)
| ChangeText (s : string)
| Fired (a : Action).


(** Only provider events are fired. *)
Definition wellFormedInput (i : Input) : bool :=
  match i with
  | Fired a => isProviderEvent a
  | _ => true
  end.

Definition uiStep (i : Input) (w : World) : World :=
  match i with
  | Press b => exec (onPress b) w
  | ChangeText s => exec (setTextToSpeak s) w
  | Fired a => step a w
  end.

Definition uiRun (ins : list Input) (w : World) : World :=
  fold_left (fun w i => uiStep i w) ins w.

(** The alert of the unsupported branch of [startListening]. *)
Definition isNotSupportedAlert (e : Effect) : bool :=
  match e with
  | AlertShown title _ => title =? "Not Supported"
  | _ => false
  end.

(** ** Text to speech: [handleSpeak] and [handleStopSpeaking] *)

(** The calls made on [expo-speech]. *)
Inductive SpeechCall : Type :=
| SpeakCall (text language : string)     (* Speech.speak(text, {language, ...}) *)
| StopCall.                              (* Speech.stop()                       *)

(** The whole screen: the cells of the hook and of [App], the
    [isSpeaking] cell, and the calls made on the synthesiser. *)
Record Screen : Type := mkScreen {
  hook : World;
  isSpeaking : bool;
  speechCalls : list SpeechCall
}.

Definition mountScreen (rt : Runtime) : Screen :=
  {| hook := mount rt; isSpeaking := false; speechCalls := [] |}.

Definition setIsSpeaking (b : bool) (s : Screen) : Screen :=
  {| hook := hook s; isSpeaking := b; speechCalls := speechCalls s |}.

Definition callSpeech (c : SpeechCall) (s : Screen) : Screen :=
  {| hook := hook s; isSpeaking := isSpeaking s;
     speechCalls := (speechCalls s ++ [c])%list |}.

(** A computation of the hook, run on the screen. *)
Definition inHook (m : Js unit) (s : Screen) : Screen :=
  {| hook := exec m (hook s); isSpeaking := isSpeaking s;
     speechCalls := speechCalls s |}.

(** [handleSpeak]. [blank t] stands for [!t.trim()], the text being
    empty or white space only; [speakThrows] says whether the call of
    [Speech.speak] throws. *)
Definition handleSpeak (blank : string -> bool) (speakThrows : bool) (s : Screen) : Screen :=
  if blank (textToSpeak (hook s)) then s
  else
    let s1 := setIsSpeaking true s in
    let s2 := callSpeech (SpeakCall (textToSpeak (hook s)) "en-US") s1 in
    if speakThrows
    then inHook (Alert_alert "Error" "Failed to speak text") (setIsSpeaking false s2)
    else s2.

(** The three callbacks [handleSpeak] hands to [Speech.speak]. *)
Definition onDone (s : Screen) : Screen := setIsSpeaking false s.
Definition onStopped (s : Screen) : Screen := setIsSpeaking false s.
Definition onSpeechError (s : Screen) : Screen :=
  inHook (Alert_alert "Error" "Text-to-speech failed") (setIsSpeaking false s).

(** [handleStopSpeaking]; [stopThrows] says whether [await Speech.stop()]
    throws, in which case the [catch] only logs. *)
Definition handleStopSpeaking (stopThrows : bool) (s : Screen) : Screen :=
  let s1 := callSpeech StopCall s in
  if stopThrows then s1 else setIsSpeaking false s1.

(** What can happen on the speech side: the two handlers, with what the
    synthesiser answers, and the three callbacks. *)
Inductive SpeechAction : Type :=
| Speak (speakThrows : bool)
| StopSpeaking (stopThrows : bool)
| Done
| Stopped
| SpeechError.

Definition speechStep (blank : string -> bool) (a : SpeechAction) (s : Screen) : Screen :=
  match a with
  | Speak speakThrows => handleSpeak blank speakThrows s
  | StopSpeaking stopThrows => handleStopSpeaking stopThrows s
  | Done => onDone s
  | Stopped => onStopped s
  | SpeechError => onSpeechError s
  end.

Definition speechRun (blank : string -> bool) (tr : list SpeechAction) (s : Screen) : Screen :=
  fold_left (fun s a => speechStep blank a s) tr s.

(** Everything that reaches the screen, on the hook side or on the speech
    side. *)
Inductive ScreenInput : Type :=
| OnHook (i : Input)
| OnSpeech (a : SpeechAction).

Definition screenStep (blank : string -> bool) (i : ScreenInput) (s : Screen) : Screen :=
  match i with
  | OnHook i' =>
      {| hook := uiStep i' (hook s); isSpeaking := isSpeaking s;
         speechCalls := speechCalls s |}
  | OnSpeech a => speechStep blank a s
  end.

Definition screenRun (blank : string -> bool) (ins : list ScreenInput) (s : Screen) : Screen :=
  fold_left (fun s i => screenStep blank i s) ins s.

(** A call the synthesiser can do something with: a text that is not
    blank, to be spoken in "en-US"; or a stop. *)
Definition speakCallOk (blank : string -> bool) (c : SpeechCall) : bool :=
  match c with
  | SpeakCall text language => negb (blank text) && (language =? "en-US")
  | StopCall => true
  end.

(** White space only, for texts made of ASCII characters: a sample
    [blank]. *)
Fixpoint asciiBlank (t : string) : bool :=
  match t with
  | EmptyString => true
  | String c t' =>
      (Ascii.eqb c (Ascii.ascii_of_nat 32) || Ascii.eqb c (Ascii.ascii_of_nat 9) ||
       Ascii.eqb c (Ascii.ascii_of_nat 10) || Ascii.eqb c (Ascii.ascii_of_nat 13))
      && asciiBlank t'
  end.

(** ** Proof steps *)

(** Open the handlers down to the record updates. *)
Ltac unfold_js :=
  unfold exec, returns, step, startListening, stopListening, clearTranscript, copyToInput,
    onstart, onend, onerror, providerEnded, updRecognition, callRecognition,
    Alert_alert, try_catch, bind, ret, read, throw, emit,
    setIsListening, setTranscript, updTranscript, setInterimTranscript, setError,
    setIsSupported, setRecognitionRef, setTextToSpeak in *.

(** The same on a world split into its cells. *)
Ltac js_cases w :=
  destruct w as [l t it e s ref tts fx]; unfold_js; simpl in *; subst; simpl.

(** ** Strings *)

Lemma append_nil_r (s : string) : s ++ "" = s.
Proof. induction s as [|c s IH]; simpl; [reflexivity | now rewrite IH]. Qed.

Lemma append_assoc (s t u : string) : (s ++ t) ++ u = s ++ (t ++ u).
Proof. induction s as [|c s IH]; simpl; [reflexivity | now rewrite IH]. Qed.

Lemma truthy_false (s : string) : truthy s = false -> s = "".
Proof.
  unfold truthy. intros H. apply negb_false_iff in H. now apply String.eqb_eq.
Qed.

Lemma truthy_true (s : string) : s <> "" -> truthy s = true.
Proof.
  unfold truthy. intros H. apply negb_true_iff. now apply String.eqb_neq.
Qed.

Lemma concatText_app (l1 l2 : list WebSpeech.SpeechRecognitionResult) :
  concatText (l1 ++ l2) = concatText l1 ++ concatText l2.
Proof.
  induction l1 as [|r l1 IH]; simpl; [reflexivity|].
  now rewrite IH, append_assoc.
Qed.

(** ** The loop of [onresult] *)

Lemma skipn_nth_error {A} (l : list A) (i : nat) (x : A) :
  nth_error l i = Some x -> skipn i l = x :: skipn (S i) l.
Proof.
  revert i. induction l as [|y l IH]; intros [|i] H; simpl in *; try discriminate.
  - now inversion H.
  - now apply IH.
Qed.

Lemma skipn_nth_error_None {A} (l : list A) (i : nat) :
  nth_error l i = None -> skipn i l = [].
Proof. intros H. apply skipn_all2. now apply nth_error_None. Qed.

(** The loop visits the results from [i] on, once each and in order, and
    its bound is never what stops it. *)
Lemma onresult_loop_spec (results : list WebSpeech.SpeechRecognitionResult) :
  forall n i fin int,
    n = length results - i ->
    onresult_loop results n i fin int =
      (fin ++ concatText (finalSegments (skipn i results)),
       int ++ concatText (interimSegments (skipn i results))).
Proof.
  induction n as [|n IH]; intros i fin int Hn; simpl.
  - rewrite skipn_all2 by lia. simpl. now rewrite !append_nil_r.
  - destruct (nth_error results i) as [r|] eqn:Hi.
    + rewrite (skipn_nth_error _ _ _ Hi).
      unfold finalSegments, interimSegments. simpl.
      destruct (WebSpeech.isFinal r); simpl;
        rewrite IH by lia; unfold finalSegments, interimSegments, segmentText;
        now rewrite ?append_assoc.
    + rewrite (skipn_nth_error_None _ _ Hi). simpl. now rewrite !append_nil_r.
Qed.

(** ** Handlers as state transformers *)

Lemma onresult_exec (event : WebSpeech.SpeechRecognitionEvent) (w : World) :
  exec (onresult event) w =
    {| isListening := isListening w;
       transcript := transcript w ++ concatText (finalSegments (delivered event));
       interimTranscript := concatText (interimSegments (delivered event));
       error := error w; isSupported := isSupported w;
       recognitionRef := recognitionRef w; textToSpeak := textToSpeak w;
       effects := effects w |}.
Proof.
  unfold onresult, delivered.
  rewrite (onresult_loop_spec _ _ _ "" "" eq_refl). simpl.
  destruct (truthy _) eqn:Ht; unfold_js; simpl.
  - reflexivity.
  - apply truthy_false in Ht. rewrite Ht, append_nil_r. reflexivity.
Qed.

Lemma processResults_transcript (es : list WebSpeech.SpeechRecognitionEvent) :
  forall w,
    transcript (processResults es w) =
      transcript w ++ concatText (finalSegments (flat_map delivered es)).
Proof.
  unfold processResults, run.
  induction es as [|e es IH]; intros w; simpl.
  - now rewrite append_nil_r.
  - rewrite IH, onresult_exec. simpl.
    unfold finalSegments. rewrite filter_app, concatText_app, append_assoc.
    reflexivity.
Qed.

Lemma processResults_isListening (es : list WebSpeech.SpeechRecognitionEvent) :
  forall w, isListening (processResults es w) = isListening w.
Proof.
  unfold processResults, run.
  induction es as [|e es IH]; intros w; simpl; [reflexivity|].
  rewrite IH, onresult_exec. reflexivity.
Qed.

(** *** [startListening], case by case *)

Lemma startListening_unsupported (w : World) :
  isSupported w = false ->
  startListening w =
    (Normal tt,
     {| isListening := isListening w; transcript := transcript w;
        interimTranscript := interimTranscript w; error := error w;
        isSupported := isSupported w; recognitionRef := recognitionRef w;
        textToSpeak := textToSpeak w;
        effects := (effects w ++
          [AlertShown "Not Supported"
             "Please open this app in Chrome or Edge browser for speech recognition."])%list |}).
Proof. intros H. js_cases w. reflexivity. Qed.

Lemma startListening_accepted (w : World) (r r' : WebSpeech.SpeechRecognition) :
  isSupported w = true -> recognitionRef w = Some r -> WebSpeech.start r = inr r' ->
  startListening w =
    (Normal tt,
     {| isListening := isListening w; transcript := ""; interimTranscript := "";
        error := ""; isSupported := true; recognitionRef := Some r';
        textToSpeak := textToSpeak w;
        effects := (effects w ++ [RecognitionStart])%list |}).
Proof.
  intros Hs Hr Hst. js_cases w. rewrite Hst. reflexivity.
Qed.

Lemma startListening_rejected (w : World) (r : WebSpeech.SpeechRecognition)
    (exn : WebSpeech.DOMException) :
  isSupported w = true -> recognitionRef w = Some r -> WebSpeech.start r = inl exn ->
  startListening w =
    (Normal tt,
     {| isListening := isListening w; transcript := ""; interimTranscript := "";
        error := "Failed to start speech recognition. Please try again.";
        isSupported := true; recognitionRef := Some r;
        textToSpeak := textToSpeak w;
        effects := (effects w ++ [RecognitionStart])%list |}).
Proof.
  intros Hs Hr Hst. js_cases w. rewrite Hst. reflexivity.
Qed.

(** Whatever the provider answers, a supported [startListening] leaves
    both transcript parts empty and does not touch [isListening]. *)
Lemma startListening_clears (w : World) :
  isSupported w = true ->
  transcript (exec startListening w) = "" /\
  interimTranscript (exec startListening w) = "" /\
  isListening (exec startListening w) = isListening w.
Proof.
  intros Hs. js_cases w.
  destruct ref as [r|]; simpl; [|auto].
  destruct (WebSpeech.start r); simpl; auto.
Qed.

(** ** The transcript buffer *)

(** C1. After [startListening] (which empties the committed transcript)
    and the provider's [onstart], processing any sequence of result
    events leaves the screen listening with a committed transcript equal
    to the final segments of all those events, in delivery order, put end
    to end. *)
Theorem committed_is_finals_since_start
    (w : World) (es : list WebSpeech.SpeechRecognitionEvent) :
  isSupported w = true ->
  transcript (exec startListening w) = "" /\
  Listening (processResults es (exec onstart (exec startListening w))) /\
  transcript (processResults es (exec onstart (exec startListening w))) =
    concatText (finalSegments (flat_map delivered es)).
Proof.
  intros Hs.
  destruct (startListening_clears w Hs) as (Ht & _ & _).
  split; [exact Ht|]. split.
  - unfold Listening. rewrite processResults_isListening. reflexivity.
  - rewrite processResults_transcript.
    change (transcript (exec onstart (exec startListening w)))
      with (transcript (exec startListening w)).
    rewrite Ht. reflexivity.
Qed.

Lemma committed_is_finals_since_start_witness :
  isSupported (mount browserWithSpeech) = true /\
  transcript (processResults [helloEvent; worldEvent]
                (exec onstart (exec startListening (mount browserWithSpeech)))) = "hello ".
Proof.
  split; [reflexivity|].
  exact (proj2 (proj2 (committed_is_finals_since_start
                         (mount browserWithSpeech) [helloEvent; worldEvent] eq_refl))).
Defined.

(** C2. After a result event the pending fragment is the interim segments
    of that one event put end to end, whatever the state before it, and
    so whatever earlier events delivered. *)
Theorem pending_is_interims_of_last_event
    (w : World) (es : list WebSpeech.SpeechRecognitionEvent)
    (event : WebSpeech.SpeechRecognitionEvent) :
  interimTranscript (exec (onresult event) w) =
    concatText (interimSegments (delivered event)) /\
  interimTranscript (processResults (es ++ [event]) w) =
    concatText (interimSegments (delivered event)).
Proof.
  split.
  - rewrite onresult_exec. reflexivity.
  - unfold processResults, run. rewrite map_app, fold_left_app. simpl.
    rewrite onresult_exec. reflexivity.
Qed.

(** The scenario of the two sample events: "hello " is committed, "world"
    is pending, and the screen shows "hello world". *)
Example hello_world_scenario :
  transcript (processResults [helloEvent; worldEvent]
                (run [Start; OnStart] (mount browserWithSpeech))) = "hello " /\
  interimTranscript (processResults [helloEvent; worldEvent]
                (run [Start; OnStart] (mount browserWithSpeech))) = "world" /\
  fullTranscript (processResults [helloEvent; worldEvent]
                (run [Start; OnStart] (mount browserWithSpeech))) = "hello world".
Proof. repeat split. Qed.

(** ** Errors *)

(** C5. [onerror] stores the message of the code it receives: the four
    known codes have their fixed message, and any other code [c] gives
    "Speech recognition error: " followed by [c]. *)
Theorem errorMessage_table (c : string) (w : World) :
  error (exec (onerror c) w) = errorMessage c /\
  errorMessage "not-allowed" =
    "Microphone access denied. Please allow microphone permissions." /\
  errorMessage "no-speech" = "No speech detected. Please try again." /\
  errorMessage "audio-capture" = "No microphone found. Please check your microphone." /\
  errorMessage "network" = "Network error. Please check your connection." /\
  (c <> "not-allowed" -> c <> "no-speech" -> c <> "audio-capture" -> c <> "network" ->
   errorMessage c = "Speech recognition error: " ++ c).
Proof.
  repeat split.
  intros H1 H2 H3 H4. unfold errorMessage.
  apply String.eqb_neq in H1, H2, H3, H4.
  rewrite H1, H2, H3, H4. reflexivity.
Qed.

Lemma errorMessage_table_witness :
  errorMessage "aborted" = "Speech recognition error: aborted".
Proof.
  refine (proj2 (proj2 (proj2 (proj2 (proj2
            (errorMessage_table "aborted" initialWorld))))) _ _ _ _);
    intro H; discriminate H.
Defined.

(** ** Stopping *)

(** C9. From a listening state, [stopListening] followed by the
    provider's [onend] leaves the screen idle with the committed
    transcript it had before the stop; the pending fragment is emptied
    and the error is not touched. *)
Theorem stop_then_end_keeps_committed (w : World) :
  Listening w ->
  Idle (exec onend (exec stopListening w)) /\
  transcript (exec onend (exec stopListening w)) = transcript w /\
  interimTranscript (exec onend (exec stopListening w)) = "" /\
  error (exec onend (exec stopListening w)) = error w /\
  transcript (run [Stop; OnEnd] w) = transcript w /\
  Idle (run [Stop; OnEnd] w).
Proof.
  intros _. unfold Idle, run. js_cases w.
  destruct ref as [r|]; simpl; repeat split.
Qed.

Lemma stop_then_end_keeps_committed_witness :
  Listening (run [Start; OnStart; OnResult helloEvent; OnResult worldEvent]
               (mount browserWithSpeech)) /\
  transcript (exec onend (exec stopListening
               (run [Start; OnStart; OnResult helloEvent; OnResult worldEvent]
                    (mount browserWithSpeech)))) = "hello ".
Proof.
  split; [reflexivity|].
  exact (proj1 (proj2 (stop_then_end_keeps_committed
           (run [Start; OnStart; OnResult helloEvent; OnResult worldEvent]
                (mount browserWithSpeech)) eq_refl))).
Defined.

(** ** Copy to input *)

(** C10. [copyToInput] with a non-empty committed transcript puts it in
    the text-to-speak input and empties the committed transcript, the
    pending fragment and the error; with an empty committed transcript it
    changes nothing at all. *)
Theorem copyToInput_spec (w : World) :
  (transcript w <> "" ->
     textToSpeak (exec copyToInput w) = transcript w /\
     transcript (exec copyToInput w) = "" /\
     interimTranscript (exec copyToInput w) = "" /\
     error (exec copyToInput w) = "") /\
  (transcript w = "" -> exec copyToInput w = w).
Proof.
  split; intros H.
  - apply truthy_true in H. js_cases w. rewrite H. simpl. repeat split.
  - js_cases w. reflexivity.
Qed.

Lemma copyToInput_spec_witness :
  textToSpeak (exec copyToInput
     (run [Start; OnStart; OnResult helloEvent] (mount browserWithSpeech))) = "hello " /\
  exec copyToInput (mount browserWithSpeech) = mount browserWithSpeech.
Proof.
  split.
  - refine (proj1 (proj1 (copyToInput_spec
       (run [Start; OnStart; OnResult helloEvent] (mount browserWithSpeech))) _)).
    intro H; discriminate H.
  - exact (proj2 (copyToInput_spec (mount browserWithSpeech)) eq_refl).
Defined.

(** ** Starting *)

(** C3, as stated, fails: on a freshly mounted screen with the provider
    available and not started, [startListening] returns with the screen
    still not listening. *)
Lemma startListening_is_not_optimistic :
  isSupported (mount browserWithSpeech) = true /\
  (exists r r', recognitionRef (mount browserWithSpeech) = Some r /\
                WebSpeech.start r = inr r') /\
  ~ Listening (exec startListening (mount browserWithSpeech)).
Proof.
  split; [reflexivity|]. split.
  - do 2 eexists. split; reflexivity.
  - unfold Listening. simpl. discriminate.
Qed.

(** C3, amended. With the provider available and its start request
    accepted (as it is on an object that is not started),
    [startListening] returns, empties the error and both
    transcript parts, makes exactly one call to the provider, the start
    request, and leaves [isListening] as it was; the screen is listening,
    with the error still empty, once the provider's [onstart] has been
    processed. *)
Theorem startListening_then_onstart (w : World) (r r' : WebSpeech.SpeechRecognition) :
  isSupported w = true -> recognitionRef w = Some r -> WebSpeech.start r = inr r' ->
  returns startListening w = true /\
  error (exec startListening w) = "" /\
  transcript (exec startListening w) = "" /\
  interimTranscript (exec startListening w) = "" /\
  effects (exec startListening w) = (effects w ++ [RecognitionStart])%list /\
  isListening (exec startListening w) = isListening w /\
  Listening (exec onstart (exec startListening w)) /\
  error (exec onstart (exec startListening w)) = "".
Proof.
  intros Hs Hr Hst. unfold exec, returns, Listening.
  rewrite (startListening_accepted w r r' Hs Hr Hst). simpl. repeat split.
Qed.

Lemma startListening_then_onstart_witness :
  effects (exec startListening (mount browserWithSpeech)) = [RecognitionStart] /\
  isListening (exec startListening (mount browserWithSpeech)) = false /\
  Listening (exec onstart (exec startListening (mount browserWithSpeech))).
Proof.
  pose proof (startListening_then_onstart (mount browserWithSpeech)
                {| WebSpeech.continuous := true; WebSpeech.interimResults := true;
                   WebSpeech.lang := "en-US"; WebSpeech.started := false |}
                {| WebSpeech.continuous := true; WebSpeech.interimResults := true;
                   WebSpeech.lang := "en-US"; WebSpeech.started := true |}
                eq_refl eq_refl eq_refl) as (_ & _ & _ & _ & Hfx & Hl & Hon & _).
  exact (conj Hfx (conj Hl Hon)).
Defined.

(** C7, as stated, fails: while listening with "hello " committed, a
    second [startListening] is refused by the provider, and the committed
    transcript and the error are not what they were. *)
Lemma rejected_start_changes_state :
  Listening (run [Start; OnStart; OnResult helloEvent] (mount browserWithSpeech)) /\
  (exists r, recognitionRef (run [Start; OnStart; OnResult helloEvent]
                                 (mount browserWithSpeech)) = Some r /\
             WebSpeech.start r = inl WebSpeech.InvalidStateError) /\
  ~ (transcript (exec startListening
        (run [Start; OnStart; OnResult helloEvent] (mount browserWithSpeech))) =
     transcript (run [Start; OnStart; OnResult helloEvent] (mount browserWithSpeech)) /\
     error (exec startListening
        (run [Start; OnStart; OnResult helloEvent] (mount browserWithSpeech))) =
     error (run [Start; OnStart; OnResult helloEvent] (mount browserWithSpeech))).
Proof.
  split; [reflexivity|]. split.
  - eexists. split; reflexivity.
  - simpl. intros [H _]. discriminate H.
Qed.

(** C7, amended. When the provider refuses the start request (as it does
    on an object that is already started), [startListening] still returns to its
    caller and leaves [isListening] and the provider object as they were;
    both transcript parts have been emptied, and the error is "Failed to
    start speech recognition. Please try again.". *)
Theorem rejected_start_is_caught (w : World) (r : WebSpeech.SpeechRecognition)
    (exn : WebSpeech.DOMException) :
  isSupported w = true -> recognitionRef w = Some r -> WebSpeech.start r = inl exn ->
  returns startListening w = true /\
  isListening (exec startListening w) = isListening w /\
  recognitionRef (exec startListening w) = recognitionRef w /\
  transcript (exec startListening w) = "" /\
  interimTranscript (exec startListening w) = "" /\
  error (exec startListening w) = "Failed to start speech recognition. Please try again.".
Proof.
  intros Hs Hr Hst. unfold exec, returns.
  rewrite (startListening_rejected w r exn Hs Hr Hst). simpl. rewrite Hr. repeat split.
Qed.

Lemma rejected_start_is_caught_witness :
  returns startListening
    (run [Start; OnStart; OnResult helloEvent] (mount browserWithSpeech)) = true /\
  isListening (exec startListening
    (run [Start; OnStart; OnResult helloEvent] (mount browserWithSpeech))) = true.
Proof.
  pose proof (rejected_start_is_caught
                (run [Start; OnStart; OnResult helloEvent] (mount browserWithSpeech))
                {| WebSpeech.continuous := true; WebSpeech.interimResults := true;
                   WebSpeech.lang := "en-US"; WebSpeech.started := true |}
                WebSpeech.InvalidStateError
                eq_refl eq_refl eq_refl) as (Hret & Hl & _).
  exact (conj Hret Hl).
Defined.

(** C8, as stated, fails: in a browser without the speech API, after
    [clearTranscript] the provider is still unavailable, and
    [startListening] leaves an empty error, which names no browser. *)
Lemma unsupported_start_sets_no_error :
  isSupported (run [Clear] (mount browserWithoutSpeech)) = false /\
  error (exec startListening (run [Clear] (mount browserWithoutSpeech))) = "" /\
  ~ includes (error (exec startListening (run [Clear] (mount browserWithoutSpeech))))
             "browser" = true.
Proof.
  split; [reflexivity|]. split; [reflexivity|]. simpl. discriminate.
Qed.

(** C8, amended. With the provider unavailable, [startListening] returns
    and changes no cell of the state: session state, committed
    transcript, pending fragment and error are what they were. It makes
    no call to the provider; its one effect is the alert "Not Supported",
    whose message names the browser to use. On a screen that has just
    been mounted the error is the one set at mount, which names the
    browser too. *)
Theorem unsupported_start_only_alerts (w : World) (rt : Runtime) :
  isSupported w = false ->
  returns startListening w = true /\
  isListening (exec startListening w) = isListening w /\
  transcript (exec startListening w) = transcript w /\
  interimTranscript (exec startListening w) = interimTranscript w /\
  error (exec startListening w) = error w /\
  recognitionRef (exec startListening w) = recognitionRef w /\
  effects (exec startListening w) =
    (effects w ++
       [AlertShown "Not Supported"
          "Please open this app in Chrome or Edge browser for speech recognition."])%list /\
  includes "Please open this app in Chrome or Edge browser for speech recognition."
           "browser" = true /\
  (isSupported (mount rt) = false ->
   includes (error (exec startListening (mount rt))) "browser" = true).
Proof.
  intros Hs. unfold exec, returns.
  rewrite (startListening_unsupported w Hs). simpl.
  repeat split.
  destruct rt as [[|] [|]]; intros H; try discriminate H; reflexivity.
Qed.

Lemma unsupported_start_only_alerts_witness :
  transcript (exec startListening (mount nativeRuntime)) = "" /\
  error (exec startListening (mount nativeRuntime)) =
    "Please open this app in a web browser for speech recognition." /\
  includes (error (exec startListening (mount browserWithoutSpeech))) "browser" = true.
Proof.
  pose proof (unsupported_start_only_alerts (mount nativeRuntime) browserWithoutSpeech
                eq_refl) as (_ & _ & Ht & _ & He & _ & _ & _ & Hb).
  exact (conj Ht (conj He (Hb eq_refl))).
Defined.

(** ** The error event *)

(** C4. What [onerror] does: it stores the message of the code and
    leaves the screen idle, and the pending fragment is what it was. On
    the run start, [onstart], a result event with the guess "world",
    then [onerror] with "not-allowed", the screen ends idle with the
    microphone message and with "world" still pending. *)
Theorem onerror_keeps_pending (c : string) (w : World) :
  error (exec (onerror c) w) = errorMessage c /\
  Idle (exec (onerror c) w) /\
  interimTranscript (exec (onerror c) w) = interimTranscript w /\
  Listening (run [Start; OnStart; OnResult worldEvent] (mount browserWithSpeech)) /\
  error (run [Start; OnStart; OnResult worldEvent; OnError "not-allowed"]
             (mount browserWithSpeech)) =
    "Microphone access denied. Please allow microphone permissions." /\
  Idle (run [Start; OnStart; OnResult worldEvent; OnError "not-allowed"]
            (mount browserWithSpeech)) /\
  interimTranscript (run [Start; OnStart; OnResult worldEvent; OnError "not-allowed"]
                         (mount browserWithSpeech)) = "world".
Proof. repeat split. Qed.

(** ** Idle and the pending fragment *)

Lemma step_keeps_idleMeansNoPending (a : Action) (w : World) :
  allowed a w = true -> idleMeansNoPending w -> idleMeansNoPending (step a w).
Proof.
  unfold idleMeansNoPending.
  destruct a as [| | | |event|code|]; simpl; intros Ha Hinv.
  - (* Start *)
    destruct (isSupported w) eqn:Hs.
    + intros _. apply (startListening_clears w Hs).
    + unfold exec. rewrite (startListening_unsupported w Hs). exact Hinv.
  - (* Stop *)
    js_cases w. destruct ref as [r|]; exact Hinv.
  - (* Clear *)
    reflexivity.
  - (* OnStart *)
    js_cases w. discriminate.
  - (* OnResult, while listening *)
    rewrite onresult_exec. simpl. rewrite Ha. discriminate.
  - (* OnError is not allowed *)
    discriminate Ha.
  - (* OnEnd *)
    js_cases w. destruct ref; reflexivity.
Qed.

Lemma run_keeps_idleMeansNoPending (tr : list Action) :
  forall w, guarded tr w = true -> idleMeansNoPending w -> idleMeansNoPending (run tr w).
Proof.
  unfold run.
  induction tr as [|a tr IH]; intros w Hg Hinv; simpl in *; [exact Hinv|].
  apply andb_true_iff in Hg. destruct Hg as [Ha Hg].
  apply IH; [exact Hg|]. now apply step_keeps_idleMeansNoPending.
Qed.

(** C6, as stated, fails, in two ways. A result event processed on an
    idle screen leaves its guess pending; and the error event leaves the
    screen idle with the guess of the last result event still pending. *)
Lemma idle_with_pending_fragment :
  (Idle (run [OnResult worldEvent] (mount browserWithSpeech)) /\
   interimTranscript (run [OnResult worldEvent] (mount browserWithSpeech)) <> "") /\
  (Idle (run [Start; OnStart; OnResult worldEvent; OnError "network"]
             (mount browserWithSpeech)) /\
   interimTranscript (run [Start; OnStart; OnResult worldEvent; OnError "network"]
                          (mount browserWithSpeech)) <> "").
Proof. repeat split; simpl; discriminate. Qed.

(** C6, amended. In every state reached from a mounted screen by a run
    of start, stop, clear, [onstart], [onresult] and [onend] in which each
    result event is processed while the screen is listening, an idle
    screen has an empty pending fragment. *)
Theorem idle_means_no_pending (rt : Runtime) (tr : list Action) :
  guarded tr (mount rt) = true ->
  Idle (run tr (mount rt)) ->
  interimTranscript (run tr (mount rt)) = "".
Proof.
  intros Hg. apply run_keeps_idleMeansNoPending; [exact Hg|].
  intros _. destruct rt as [[|] [|]]; reflexivity.
Qed.

Lemma idle_means_no_pending_witness :
  interimTranscript
    (run [Start; OnStart; OnResult helloEvent; OnResult worldEvent; Stop; OnEnd; Clear]
         (mount browserWithSpeech)) = "".
Proof.
  exact (idle_means_no_pending browserWithSpeech
           [Start; OnStart; OnResult helloEvent; OnResult worldEvent; Stop; OnEnd; Clear]
           eq_refl eq_refl).
Defined.

(** * Beyond the claims *)

(** ** The capability check *)

(** No operation and no event writes [isSupported], and none makes the
    ref null or non-null. *)
Lemma step_capability (a : Action) (w : World) :
  isSupported (step a w) = isSupported w /\
  (recognitionRef (step a w) = None <-> recognitionRef w = None).
Proof.
  destruct a as [| | | |event|code|]; simpl.
  - js_cases w. destruct s; simpl; [|tauto].
    destruct ref as [r|]; simpl; [|tauto].
    destruct (WebSpeech.start r); simpl; split; try reflexivity;
      split; intros H; discriminate H.
  - js_cases w. destruct ref as [r|]; simpl; [|tauto].
    split; [reflexivity|]. split; intros H; discriminate H.
  - js_cases w. tauto.
  - js_cases w. tauto.
  - rewrite onresult_exec. simpl. tauto.
  - js_cases w. tauto.
  - js_cases w. destruct ref as [r|]; simpl; [|tauto].
    split; [reflexivity|]. split; intros H; discriminate H.
Qed.

Lemma run_capability (tr : list Action) :
  forall w,
    isSupported (run tr w) = isSupported w /\
    (recognitionRef (run tr w) = None <-> recognitionRef w = None).
Proof.
  unfold run.
  induction tr as [|a tr IH]; intros w; simpl; [tauto|].
  destruct (IH (step a w)) as [Hs Hr].
  destruct (step_capability a w) as [Hs' Hr'].
  split; [congruence | tauto].
Qed.

(** X1. The capability check is made once, at mount: after any run of
    operations and events the screen is supported exactly when the
    runtime has a window with the speech API, and exactly then the ref
    holds a recognition object. *)
Theorem capability_fixed_at_mount (rt : Runtime) (tr : list Action) :
  isSupported (run tr (mount rt)) = hasWindow rt && hasSpeechRecognition rt /\
  (isSupported (run tr (mount rt)) = true <->
   recognitionRef (run tr (mount rt)) <> None).
Proof.
  destruct (run_capability tr (mount rt)) as [Hs Hr].
  rewrite Hs. split.
  - destruct rt as [[|] [|]]; reflexivity.
  - rewrite Hr. destruct rt as [[|] [|]]; simpl; split; intros H;
      try discriminate H; try reflexivity; try (exfalso; apply H; reflexivity).
    discriminate.
Qed.

Lemma step_configured (a : Action) (w : World) :
  configured w -> configured (step a w).
Proof.
  unfold configured.
  destruct a as [| | | |event|code|]; simpl; intros Hc r'.
  - js_cases w. destruct s; simpl; [|apply Hc].
    destruct ref as [r|]; simpl; [|apply Hc].
    unfold WebSpeech.start. destruct (WebSpeech.started r) eqn:Hst; simpl.
    + apply Hc.
    + intros H. inversion H; subst; clear H. simpl. apply (Hc r eq_refl).
  - js_cases w. destruct ref as [r|]; simpl; apply Hc.
  - js_cases w. apply Hc.
  - js_cases w. apply Hc.
  - rewrite onresult_exec. simpl. apply Hc.
  - js_cases w. apply Hc.
  - js_cases w. destruct ref as [r|]; simpl; [|apply Hc].
    intros H. inversion H; subst; clear H. simpl. apply (Hc r eq_refl).
Qed.

(** X2. The recognition object keeps the settings of the mount effect:
    after any run of operations and events it is still in continuous
    mode, with interim results on, and listens for "en-US". *)
Theorem recognition_stays_configured (rt : Runtime) (tr : list Action)
    (r : WebSpeech.SpeechRecognition) :
  recognitionRef (run tr (mount rt)) = Some r ->
  WebSpeech.continuous r = true /\
  WebSpeech.interimResults r = true /\
  WebSpeech.lang r = "en-US".
Proof.
  assert (Hrun : forall tr w, configured w -> configured (run tr w)).
  { unfold run. clear. induction tr as [|a tr IH]; intros w Hc; simpl; [exact Hc|].
    apply IH. now apply step_configured. }
  apply (Hrun tr (mount rt)).
  intros r0. destruct rt as [[|] [|]]; simpl; intros H; try discriminate H.
  inversion H; subst. simpl. repeat split.
Qed.

Lemma recognition_stays_configured_witness :
  exists r,
    recognitionRef (run [Start; OnStart; OnResult helloEvent; Stop; OnEnd]
                        (mount browserWithSpeech)) = Some r /\
    WebSpeech.continuous r = true /\
    WebSpeech.interimResults r = true /\
    WebSpeech.lang r = "en-US".
Proof.
  eexists. split; [reflexivity|].
  exact (recognition_stays_configured browserWithSpeech
           [Start; OnStart; OnResult helloEvent; Stop; OnEnd] _ eq_refl).
Defined.

(** ** Clearing *)

(** X3. [clearTranscript] done twice is [clearTranscript] done once; it
    leaves nothing to show, and it does not stop a session: the session
    state and the recognition object are what they were and no call is
    made on the provider. *)
Theorem clearTranscript_idempotent (w : World) :
  exec clearTranscript (exec clearTranscript w) = exec clearTranscript w /\
  fullTranscript (exec clearTranscript w) = "" /\
  error (exec clearTranscript w) = "" /\
  isListening (exec clearTranscript w) = isListening w /\
  recognitionRef (exec clearTranscript w) = recognitionRef w /\
  effects (exec clearTranscript w) = effects w.
Proof. js_cases w. repeat split. Qed.

(** X4. A session that goes on after a clear writes into the emptied
    buffer: after [clearTranscript] and any sequence of result events the
    committed transcript is the final segments of those events alone. *)
Theorem results_after_clear (w : World) (es : list WebSpeech.SpeechRecognitionEvent) :
  transcript (processResults es (exec clearTranscript w)) =
    concatText (finalSegments (flat_map delivered es)).
Proof.
  rewrite processResults_transcript. js_cases w. reflexivity.
Qed.

(** ** Stopping, on its own *)

(** X5. [stopListening] always returns and writes no cell: the session
    state, both transcript parts and the error are what they were, so a
    listening screen stays listening until the provider's end event. It
    makes one call, the stop request, when there is a recognition object,
    and none when there is not. *)
Theorem stopListening_only_asks (w : World) :
  returns stopListening w = true /\
  isListening (exec stopListening w) = isListening w /\
  transcript (exec stopListening w) = transcript w /\
  interimTranscript (exec stopListening w) = interimTranscript w /\
  error (exec stopListening w) = error w /\
  effects (exec stopListening w) =
    (effects w ++ match recognitionRef w with
                  | Some _ => [RecognitionStop]
                  | None => []
                  end)%list.
Proof.
  js_cases w. destruct ref as [r|]; simpl; repeat split.
  now rewrite app_nil_r.
Qed.

(** ** The committed transcript over a whole run *)

Lemma length_append (s t : string) :
  String.length (s ++ t) = String.length s + String.length t.
Proof. induction s as [|c s IH]; simpl; [reflexivity | now rewrite IH]. Qed.

Lemma prefix_append (s t : string) : prefix s (s ++ t) = true.
Proof.
  induction s as [|c s IH]; simpl; [now destruct t|].
  destruct (Ascii.ascii_dec c c) as [_|Hne]; [exact IH | now elim Hne].
Qed.

Lemma step_transcript (a : Action) (w : World) :
  resetsTranscript a = false ->
  transcript (step a w) =
    transcript w ++ concatText (finalSegments (flat_map delivered (resultsOf [a]))).
Proof.
  destruct a as [| | | |event|code|]; simpl; intros Ha; try discriminate Ha.
  - js_cases w. destruct ref; simpl; now rewrite append_nil_r.
  - js_cases w. now rewrite append_nil_r.
  - rewrite onresult_exec. simpl. now rewrite app_nil_r.
  - js_cases w. now rewrite append_nil_r.
  - js_cases w. destruct ref; simpl; now rewrite append_nil_r.
Qed.

Lemma resultsOf_cons (a : Action) (tr : list Action) :
  resultsOf (a :: tr) = (resultsOf [a] ++ resultsOf tr)%list.
Proof. destruct a; reflexivity. Qed.

Lemma run_transcript (tr : list Action) :
  forall w,
    forallb (fun a => negb (resetsTranscript a)) tr = true ->
    transcript (run tr w) =
      transcript w ++ concatText (finalSegments (flat_map delivered (resultsOf tr))).
Proof.
  unfold run.
  induction tr as [|a tr IH]; intros w Hall.
  - simpl. now rewrite append_nil_r.
  - simpl in Hall. apply andb_true_iff in Hall. destruct Hall as [Ha Hall].
    apply negb_true_iff in Ha.
    cbn [fold_left]. rewrite (IH _ Hall), (step_transcript a w Ha).
    rewrite (resultsOf_cons a tr), flat_map_app.
    unfold finalSegments. rewrite filter_app, concatText_app, append_assoc.
    reflexivity.
Qed.

(** X6. Between two resets (start, clear) the committed transcript only
    grows, and only result events make it grow: after any run of stop
    requests and provider events, in any order, it is what it was followed
    by the final segments of the result events of the run, in order. So
    the old transcript is a prefix of the new one and is no longer. *)
Theorem committed_only_grows (tr : list Action) (w : World) :
  forallb (fun a => negb (resetsTranscript a)) tr = true ->
  transcript (run tr w) =
    transcript w ++ concatText (finalSegments (flat_map delivered (resultsOf tr))) /\
  prefix (transcript w) (transcript (run tr w)) = true /\
  String.length (transcript w) <= String.length (transcript (run tr w)).
Proof.
  intros Hall. rewrite (run_transcript tr w Hall).
  split; [reflexivity|]. split.
  - apply prefix_append.
  - rewrite length_append. lia.
Qed.

Lemma committed_only_grows_witness :
  transcript (run [OnResult worldEvent; OnError "network"; OnEnd; Stop; OnResult helloEvent]
                  (run [Start; OnStart; OnResult helloEvent] (mount browserWithSpeech))) =
    "hello hello ".
Proof.
  exact (proj1 (committed_only_grows
                  [OnResult worldEvent; OnError "network"; OnEnd; Stop; OnResult helloEvent]
                  (run [Start; OnStart; OnResult helloEvent] (mount browserWithSpeech))
                  eq_refl)).
Defined.

(** ** Result events at the edges *)

(** X7. A result event whose [resultIndex] is at or past the end of its
    result list delivers nothing: the committed transcript is unchanged
    and the pending fragment becomes empty. *)
Theorem empty_delivery_drops_pending (event : WebSpeech.SpeechRecognitionEvent) (w : World) :
  length (WebSpeech.results event) <= WebSpeech.resultIndex event ->
  transcript (exec (onresult event) w) = transcript w /\
  interimTranscript (exec (onresult event) w) = "".
Proof.
  intros Hlen. rewrite onresult_exec. simpl.
  unfold delivered. rewrite skipn_all2 by exact Hlen. simpl.
  now rewrite append_nil_r.
Qed.

Lemma empty_delivery_drops_pending_witness :
  interimTranscript
    (exec (onresult {| WebSpeech.resultIndex := 1;
                       WebSpeech.results := [segment "hello " true] |})
          (run [Start; OnStart; OnResult worldEvent] (mount browserWithSpeech))) = "".
Proof.
  refine (proj2 (empty_delivery_drops_pending
                   {| WebSpeech.resultIndex := 1;
                      WebSpeech.results := [segment "hello " true] |}
                   (run [Start; OnStart; OnResult worldEvent] (mount browserWithSpeech)) _)).
  simpl. lia.
Defined.

Lemma all_interim (l : list WebSpeech.SpeechRecognitionResult) :
  forallb (fun r => negb (WebSpeech.isFinal r)) l = true ->
  finalSegments l = [] /\ interimSegments l = l.
Proof.
  unfold finalSegments, interimSegments.
  induction l as [|r l IH]; simpl; intros H; [split; reflexivity|].
  apply andb_true_iff in H. destruct H as [Hr Hl].
  destruct (IH Hl) as [Hf Hi].
  destruct (WebSpeech.isFinal r); simpl in *; [discriminate Hr|].
  now rewrite Hf, Hi.
Qed.

Lemma finalsFirst_concat (l : list WebSpeech.SpeechRecognitionResult) :
  finalsFirst l = true ->
  concatText (finalSegments l) ++ concatText (interimSegments l) = concatText l.
Proof.
  induction l as [|r l IH]; simpl; intros H; [reflexivity|].
  unfold finalSegments, interimSegments in *. simpl.
  destruct (WebSpeech.isFinal r) eqn:Hr; simpl.
  - rewrite append_assoc. now rewrite (IH H).
  - destruct (all_interim l H) as [Hf Hi].
    unfold finalSegments, interimSegments in *.
    now rewrite Hf, Hi.
Qed.

(** X8. When the final segments an event delivers all come before its
    interim ones, the text on screen after the event is the committed
    transcript of before followed by the delivered texts in the order of
    delivery. *)
Theorem fullTranscript_in_delivery_order
    (event : WebSpeech.SpeechRecognitionEvent) (w : World) :
  finalsFirst (delivered event) = true ->
  fullTranscript (exec (onresult event) w) =
    transcript w ++ concatText (delivered event).
Proof.
  intros H. rewrite onresult_exec. unfold fullTranscript. simpl.
  now rewrite append_assoc, (finalsFirst_concat _ H).
Qed.

Lemma fullTranscript_in_delivery_order_witness :
  fullTranscript (exec (onresult {| WebSpeech.resultIndex := 0;
                                    WebSpeech.results := WebSpeech.results worldEvent |})
                       (mount browserWithSpeech)) = "hello world".
Proof.
  exact (fullTranscript_in_delivery_order
           {| WebSpeech.resultIndex := 0;
              WebSpeech.results := WebSpeech.results worldEvent |}
           (mount browserWithSpeech) eq_refl).
Defined.

(** ** Errors followed by the end event *)

Lemma onend_sets_idleMeansNoPending (w : World) : idleMeansNoPending (step OnEnd w).
Proof.
  unfold idleMeansNoPending. js_cases w. destruct ref; reflexivity.
Qed.

Lemma run_with_errors_keeps_idleMeansNoPending (n : nat) :
  forall tr w,
    length tr <= n ->
    guardedWithErrors tr w = true ->
    idleMeansNoPending w -> idleMeansNoPending (run tr w).
Proof.
  unfold run.
  induction n as [|n IH]; intros tr w Hlen Hg Hinv.
  - destruct tr; [exact Hinv | simpl in Hlen; lia].
  - destruct tr as [|a tr]; [exact Hinv|].
    simpl in Hlen.
    assert (Hother : allowed a w && guardedWithErrors tr (step a w) = true ->
                     idleMeansNoPending (fold_left (fun w a => step a w) (a :: tr) w)).
    { intros H. apply andb_true_iff in H. destruct H as [Ha Hg'].
      cbn [fold_left]. apply IH; [lia | exact Hg' |].
      now apply step_keeps_idleMeansNoPending. }
    destruct a as [| | | |event|code|]; try (apply Hother; exact Hg).
    cbn [guardedWithErrors] in Hg.
    destruct tr as [|b tr]; [discriminate Hg|].
    destruct b; try discriminate Hg.
    cbn [fold_left]. simpl in Hlen.
    apply IH; [lia | exact Hg | apply onend_sets_idleMeansNoPending].
Qed.

(** X9. The end event that follows an error event puts things right: in
    every state reached from a mounted screen by a run in which result
    events come while the screen is listening and each error event is
    followed at once by the end event, an idle screen has an empty
    pending fragment. *)
Theorem idle_means_no_pending_after_end (rt : Runtime) (tr : list Action) :
  guardedWithErrors tr (mount rt) = true ->
  Idle (run tr (mount rt)) ->
  interimTranscript (run tr (mount rt)) = "".
Proof.
  intros Hg.
  apply (run_with_errors_keeps_idleMeansNoPending (length tr) tr (mount rt) (le_n _) Hg).
  intros _. destruct rt as [[|] [|]]; reflexivity.
Qed.

Lemma idle_means_no_pending_after_end_witness :
  interimTranscript
    (run [Start; OnStart; OnResult worldEvent; OnError "no-speech"; OnEnd]
         (mount browserWithSpeech)) = "".
Proof.
  exact (idle_means_no_pending_after_end browserWithSpeech
           [Start; OnStart; OnResult worldEvent; OnError "no-speech"; OnEnd]
           eq_refl eq_refl).
Defined.

(** ** The messages of [onerror] *)

(** X10. Every error event leaves a message to show, even one with an
    empty code, and two different codes never give the same message. *)
Theorem errorMessage_visible_and_distinct (c1 c2 : string) (w : World) :
  c1 <> c2 ->
  truthy (error (exec (onerror c1) w)) = true /\
  errorMessage c1 <> errorMessage c2.
Proof.
  intros Hne. split; [|intros Heq; apply Hne; revert Heq].
  - change (error (exec (onerror c1) w)) with (errorMessage c1).
    unfold errorMessage.
    repeat match goal with
           | |- context [if ?b then _ else _] => destruct b
           end; reflexivity.
  - unfold errorMessage.
    destruct (c1 =? "not-allowed") eqn:A1;
      [|destruct (c1 =? "no-speech") eqn:A2;
        [|destruct (c1 =? "audio-capture") eqn:A3;
          [|destruct (c1 =? "network") eqn:A4]]];
    (destruct (c2 =? "not-allowed") eqn:B1;
      [|destruct (c2 =? "no-speech") eqn:B2;
        [|destruct (c2 =? "audio-capture") eqn:B3;
          [|destruct (c2 =? "network") eqn:B4]]]);
    intros H; simpl in H; try discriminate H;
    repeat match goal with
           | E : (_ =? _) = true |- _ => apply String.eqb_eq in E
           end;
    congruence.
Qed.

Lemma errorMessage_visible_and_distinct_witness :
  truthy (error (exec (onerror "") initialWorld)) = true /\
  errorMessage "" <> errorMessage "network".
Proof.
  apply (errorMessage_visible_and_distinct "" "network" initialWorld).
  intro H; discriminate H.
Defined.

(** ** The end event, again *)

(** X11. The end event is idempotent, and on an idle screen with nothing
    pending it changes nothing. *)
Theorem onend_idempotent (w : World) :
  exec onend (exec onend w) = exec onend w /\
  (Idle w -> interimTranscript w = "" -> exec onend w = w).
Proof.
  unfold Idle. split.
  - js_cases w. reflexivity.
  - intros Hl Hi. js_cases w. reflexivity.
Qed.

Lemma onend_idempotent_witness :
  exec onend (run [Start; OnStart; OnResult worldEvent; Stop; OnEnd]
                  (mount browserWithSpeech)) =
  run [Start; OnStart; OnResult worldEvent; Stop; OnEnd] (mount browserWithSpeech).
Proof.
  exact (proj2 (onend_idempotent
                  (run [Start; OnStart; OnResult worldEvent; Stop; OnEnd]
                       (mount browserWithSpeech))) eq_refl eq_refl).
Defined.

(** ** Copy to input, twice *)

(** X12. [copyToInput] done twice is [copyToInput] done once: the second
    press finds an empty transcript and leaves the copied text in the
    input. It does not stop a session either: the session state and the
    recognition object are what they were. *)
Theorem copyToInput_idempotent (w : World) :
  exec copyToInput (exec copyToInput w) = exec copyToInput w /\
  isListening (exec copyToInput w) = isListening w /\
  recognitionRef (exec copyToInput w) = recognitionRef w.
Proof.
  js_cases w. destruct (truthy t) eqn:Ht; simpl; rewrite ?Ht; repeat split.
Qed.

(** ** What the provider's events never do *)

Lemma step_event_frame (a : Action) (w : World) :
  isProviderEvent a = true ->
  effects (step a w) = effects w /\
  textToSpeak (step a w) = textToSpeak w /\
  (forall r, recognitionRef w = Some r -> exists r', recognitionRef (step a w) = Some r').
Proof.
  destruct a as [| | | |event|code|]; simpl; intros Ha; try discriminate Ha.
  - js_cases w. eauto.
  - rewrite onresult_exec. simpl. eauto.
  - js_cases w. eauto.
  - js_cases w. destruct ref as [r|]; simpl; eauto.
Qed.

(** X13. The handlers of the provider's events call nothing: over any
    run of provider events no start or stop request is made and no alert
    is shown, so the hook never restarts a session by itself, and the
    text input is left alone. *)
Theorem provider_events_make_no_call (tr : list Action) (w : World) :
  forallb isProviderEvent tr = true ->
  effects (run tr w) = effects w /\
  textToSpeak (run tr w) = textToSpeak w.
Proof.
  unfold run. revert w.
  induction tr as [|a tr IH]; intros w Hall; simpl; [split; reflexivity|].
  simpl in Hall. apply andb_true_iff in Hall. destruct Hall as [Ha Hall].
  destruct (IH (step a w) Hall) as [He Ht].
  destruct (step_event_frame a w Ha) as (He' & Ht' & _).
  split; congruence.
Qed.

Lemma provider_events_make_no_call_witness :
  effects (run [OnStart; OnResult worldEvent; OnError "network"; OnEnd]
               (run [Start] (mount browserWithSpeech))) = [RecognitionStart].
Proof.
  exact (proj1 (provider_events_make_no_call
                  [OnStart; OnResult worldEvent; OnError "network"; OnEnd]
                  (run [Start] (mount browserWithSpeech)) eq_refl)).
Defined.

(** ** A whole session *)

Lemma processResults_frame (es : list WebSpeech.SpeechRecognitionEvent) :
  forall w,
    error (processResults es w) = error w /\
    effects (processResults es w) = effects w /\
    recognitionRef (processResults es w) = recognitionRef w.
Proof.
  unfold processResults, run.
  induction es as [|e es IH]; intros w; simpl; [repeat split|].
  destruct (IH (exec (onresult e) w)) as (H1 & H2 & H3).
  rewrite H1, H2, H3, onresult_exec. repeat split.
Qed.

(** X14. A session from start to end. From any state with the provider
    available and accepting the start request, the run start, [onstart],
    any result events, stop, [onend] leaves the screen idle and without
    error, with the final segments of those events as committed
    transcript and nothing pending; one start request and one stop
    request were made, in that order, and nothing else. *)
Theorem whole_session (w : World) (r r' : WebSpeech.SpeechRecognition)
    (es : list WebSpeech.SpeechRecognitionEvent) :
  isSupported w = true -> recognitionRef w = Some r -> WebSpeech.start r = inr r' ->
  Idle (run (Start :: OnStart :: map OnResult es ++ [Stop; OnEnd]) w) /\
  transcript (run (Start :: OnStart :: map OnResult es ++ [Stop; OnEnd]) w) =
    concatText (finalSegments (flat_map delivered es)) /\
  interimTranscript (run (Start :: OnStart :: map OnResult es ++ [Stop; OnEnd]) w) = "" /\
  error (run (Start :: OnStart :: map OnResult es ++ [Stop; OnEnd]) w) = "" /\
  effects (run (Start :: OnStart :: map OnResult es ++ [Stop; OnEnd]) w) =
    (effects w ++ [RecognitionStart; RecognitionStop])%list.
Proof.
  intros Hs Hr Hst.
  unfold run. cbn [fold_left]. rewrite fold_left_app.
  change (fold_left (fun w a => step a w) (map OnResult es) (step OnStart (step Start w)))
    with (processResults es (step OnStart (step Start w))).
  assert (Hw2 : step OnStart (step Start w) =
                {| isListening := true; transcript := ""; interimTranscript := "";
                   error := ""; isSupported := true; recognitionRef := Some r';
                   textToSpeak := textToSpeak w;
                   effects := (effects w ++ [RecognitionStart])%list |}).
  { change (step Start w) with (snd (startListening w)).
    rewrite (startListening_accepted w r r' Hs Hr Hst). reflexivity. }
  rewrite Hw2.
  pose proof (processResults_transcript es (step OnStart (step Start w))) as Ht.
  destruct (processResults_frame es (step OnStart (step Start w))) as (He & Hfx & Href).
  rewrite Hw2 in Ht, He, Hfx, Href. simpl in Ht, He, Hfx, Href.
  remember (processResults es _) as W eqn:HW. clear HW Hw2.
  unfold Idle. js_cases W. repeat split. now rewrite <- app_assoc.
Qed.

Lemma whole_session_witness :
  transcript (run (Start :: OnStart :: map OnResult [helloEvent; worldEvent] ++ [Stop; OnEnd])
                  (mount browserWithSpeech)) = "hello " /\
  effects (run (Start :: OnStart :: map OnResult [helloEvent; worldEvent] ++ [Stop; OnEnd])
               (mount browserWithSpeech)) = [RecognitionStart; RecognitionStop].
Proof.
  pose proof (whole_session (mount browserWithSpeech)
                {| WebSpeech.continuous := true; WebSpeech.interimResults := true;
                   WebSpeech.lang := "en-US"; WebSpeech.started := false |}
                {| WebSpeech.continuous := true; WebSpeech.interimResults := true;
                   WebSpeech.lang := "en-US"; WebSpeech.started := true |}
                [helloEvent; worldEvent] eq_refl eq_refl eq_refl) as (_ & Ht & _ & _ & Hfx).
  exact (conj Ht Hfx).
Defined.

(** ** Through the buttons *)

Lemma press_adds_no_notSupported (b : Button) (w : World) :
  existsb isNotSupportedAlert (effects w) = false ->
  existsb isNotSupportedAlert (effects (exec (onPress b) w)) = false.
Proof.
  intros H. destruct w as [l t it e s ref tts fx]. simpl in H.
  destruct b; unfold onPress; unfold_js; simpl.
  - destruct s, l, ref as [r|]; simpl; try exact H;
      try (unfold WebSpeech.start; destruct (WebSpeech.started r); simpl);
      rewrite existsb_app, H; reflexivity.
  - destruct (truthy t) eqn:Ht; simpl; [|exact H].
    rewrite Ht. simpl. rewrite existsb_app, H. reflexivity.
  - destruct (truthy t); simpl; exact H.
Qed.

(** X15. The screen never shows the "Not Supported" alert: the listen
    button is disabled when the provider is unavailable, so whatever the
    user presses or types and whatever events the provider fires, the
    unsupported branch of [startListening] is not reached. *)
Theorem buttons_never_alert_not_supported (rt : Runtime) (ins : list Input) :
  forallb wellFormedInput ins = true ->
  existsb isNotSupportedAlert (effects (uiRun ins (mount rt))) = false.
Proof.
  assert (Hrun : forall ins w,
             forallb wellFormedInput ins = true ->
             existsb isNotSupportedAlert (effects w) = false ->
             existsb isNotSupportedAlert (effects (uiRun ins w)) = false).
  { unfold uiRun. clear. induction ins as [|i ins IH]; intros w Hwf H; simpl; [exact H|].
    simpl in Hwf. apply andb_true_iff in Hwf. destruct Hwf as [Hi Hwf].
    apply IH; [exact Hwf|].
    destruct i as [b|t|a]; simpl.
    - now apply press_adds_no_notSupported.
    - exact H.
    - destruct (step_event_frame a w Hi) as (He & _). now rewrite He. }
  intros Hwf. apply Hrun; [exact Hwf|].
  destruct rt as [[|] [|]]; reflexivity.
Qed.

Lemma buttons_never_alert_not_supported_witness :
  existsb isNotSupportedAlert
    (effects (uiRun [Press ListenButton; Press CopyButton; ChangeText "hi"; Press ListenButton]
                    (mount browserWithoutSpeech))) = false.
Proof.
  exact (buttons_never_alert_not_supported browserWithoutSpeech
           [Press ListenButton; Press CopyButton; ChangeText "hi"; Press ListenButton]
           eq_refl).
Defined.



(** ** Text to speech *)

(** X17. Copy, then speak: with a committed transcript that is not
    blank, [copyToInput] followed by [handleSpeak] asks the synthesiser,
    once, to speak exactly that transcript in "en-US"; the screen is then
    speaking, the transcript buffer is empty and the text is in the
    input. *)
Theorem copy_then_speak (blank : string -> bool) (s : Screen) :
  transcript (hook s) <> "" ->
  blank (transcript (hook s)) = false ->
  speechCalls (handleSpeak blank false (inHook copyToInput s)) =
    (speechCalls s ++ [SpeakCall (transcript (hook s)) "en-US"])%list /\
  isSpeaking (handleSpeak blank false (inHook copyToInput s)) = true /\
  fullTranscript (hook (handleSpeak blank false (inHook copyToInput s))) = "" /\
  textToSpeak (hook (handleSpeak blank false (inHook copyToInput s))) = transcript (hook s).
Proof.
  intros Hne Hb. apply truthy_true in Hne.
  destruct s as [w sp calls]. unfold handleSpeak, inHook. simpl in *.
  js_cases w. rewrite Hne. simpl. rewrite Hb. simpl. repeat split.
Qed.

Lemma copy_then_speak_witness :
  speechCalls (handleSpeak asciiBlank false (inHook copyToInput
     {| hook := run [Start; OnStart; OnResult helloEvent] (mount browserWithSpeech);
        isSpeaking := false; speechCalls := [] |})) = [SpeakCall "hello " "en-US"].
Proof.
  refine (proj1 (copy_then_speak asciiBlank
     {| hook := run [Start; OnStart; OnResult helloEvent] (mount browserWithSpeech);
        isSpeaking := false; speechCalls := [] |} _ eq_refl)).
  intro H; discriminate H.
Defined.

Lemma speechStep_frame (blank : string -> bool) (a : SpeechAction) (s : Screen) :
  isListening (hook (speechStep blank a s)) = isListening (hook s) /\
  transcript (hook (speechStep blank a s)) = transcript (hook s) /\
  interimTranscript (hook (speechStep blank a s)) = interimTranscript (hook s) /\
  error (hook (speechStep blank a s)) = error (hook s) /\
  recognitionRef (hook (speechStep blank a s)) = recognitionRef (hook s) /\
  textToSpeak (hook (speechStep blank a s)) = textToSpeak (hook s) /\
  filter isRecognitionCall (effects (hook (speechStep blank a s))) =
    filter isRecognitionCall (effects (hook s)).
Proof.
  destruct s as [w sp calls].
  destruct a as [[|]|[|]| | |]; simpl;
    unfold handleSpeak, handleStopSpeaking, onDone, onStopped, onSpeechError, inHook; simpl;
    try (destruct (blank (textToSpeak w)); simpl);
    try (repeat split; fail);
    js_cases w; repeat split; rewrite filter_app; simpl; now rewrite app_nil_r.
Qed.

(** X18. Speaking never disturbs listening: over any run of the speech
    handlers and callbacks, failing or not, the session state, both
    transcript parts, the error, the recognition object and the text
    input are what they were, and no call is made on the recognition
    provider. *)
Theorem speech_leaves_recognition_alone
    (blank : string -> bool) (tr : list SpeechAction) (s : Screen) :
  isListening (hook (speechRun blank tr s)) = isListening (hook s) /\
  transcript (hook (speechRun blank tr s)) = transcript (hook s) /\
  interimTranscript (hook (speechRun blank tr s)) = interimTranscript (hook s) /\
  error (hook (speechRun blank tr s)) = error (hook s) /\
  recognitionRef (hook (speechRun blank tr s)) = recognitionRef (hook s) /\
  textToSpeak (hook (speechRun blank tr s)) = textToSpeak (hook s) /\
  filter isRecognitionCall (effects (hook (speechRun blank tr s))) =
    filter isRecognitionCall (effects (hook s)).
Proof.
  unfold speechRun. revert s.
  induction tr as [|a tr IH]; intros s; simpl; [repeat split|].
  destruct (IH (speechStep blank a s)) as (R1 & R2 & R3 & R4 & R5 & R6 & R7).
  destruct (speechStep_frame blank a s) as (S1 & S2 & S3 & S4 & S5 & S6 & S7).
  repeat split; congruence.
Qed.

Lemma screenStep_speakCalls (blank : string -> bool) (i : ScreenInput) (s : Screen) :
  forallb (speakCallOk blank) (speechCalls s) = true ->
  forallb (speakCallOk blank) (speechCalls (screenStep blank i s)) = true.
Proof.
  intros H. destruct s as [w sp calls]. simpl in H.
  destruct i as [i|a]; simpl; [exact H|].
  destruct a as [[|]|[|]| | |]; simpl;
    unfold handleSpeak, handleStopSpeaking, onDone, onStopped, onSpeechError, inHook; simpl;
    try exact H;
    try (destruct (blank (textToSpeak w)) eqn:Hb; simpl; [exact H|]);
    rewrite forallb_app, H; simpl; rewrite ?Hb; reflexivity.
Qed.

(** X19. The synthesiser is never asked to speak a blank text, and never
    in another language than "en-US": this holds of every call made over
    any run of presses, edits of the input, provider events, speech
    handlers and speech callbacks, from any mount. *)
Theorem never_speaks_blank (blank : string -> bool) (rt : Runtime) (ins : list ScreenInput) :
  forallb (speakCallOk blank) (speechCalls (screenRun blank ins (mountScreen rt))) = true.
Proof.
  assert (Hrun : forall ins s,
             forallb (speakCallOk blank) (speechCalls s) = true ->
             forallb (speakCallOk blank) (speechCalls (screenRun blank ins s)) = true).
  { unfold screenRun. clear. induction ins as [|i ins IH]; intros s H; simpl; [exact H|].
    apply IH. now apply screenStep_speakCalls. }
  apply Hrun. reflexivity.
Qed.

(** ** Unmounting *)

(** X20. The cleanup of the mount effect asks the provider to stop
    whenever there is a recognition object, listening or not, and only
    then: after any run, it makes exactly one stop request if the runtime
    has the speech API and no call at all if it has not, and it writes no
    cell. *)
Theorem cleanup_stops_where_supported (rt : Runtime) (tr : list Action) :
  effects (exec useEffect_cleanup (run tr (mount rt))) =
    (effects (run tr (mount rt)) ++
       if hasWindow rt && hasSpeechRecognition rt then [RecognitionStop] else [])%list /\
  isListening (exec useEffect_cleanup (run tr (mount rt))) = isListening (run tr (mount rt)) /\
  transcript (exec useEffect_cleanup (run tr (mount rt))) = transcript (run tr (mount rt)) /\
  interimTranscript (exec useEffect_cleanup (run tr (mount rt))) =
    interimTranscript (run tr (mount rt)) /\
  error (exec useEffect_cleanup (run tr (mount rt))) = error (run tr (mount rt)).
Proof.
  destruct (run_capability tr (mount rt)) as [_ Hr].
  assert (Hm : recognitionRef (mount rt) = None <->
               hasWindow rt && hasSpeechRecognition rt = false).
  { destruct rt as [[|] [|]]; simpl; split; intros H; try discriminate H; reflexivity. }
  remember (run tr (mount rt)) as W eqn:HW. clear HW.
  unfold useEffect_cleanup. js_cases W.
  destruct ref as [r|]; simpl.
  - destruct (hasWindow rt && hasSpeechRecognition rt) eqn:Hb; [repeat split|].
    assert (H : Some r = None) by (apply Hr, Hm; reflexivity). discriminate H.
  - destruct (hasWindow rt && hasSpeechRecognition rt) eqn:Hb.
    + assert (H : true = false) by (apply Hm, Hr; reflexivity). discriminate H.
    + rewrite app_nil_r. repeat split.
Qed.
